(** * Scaled dot-product self-attention

    A shallow embedding of [Notebooks/00_scaled_dot_product.ipynb]: the
    exploratory numpy cells (loop dot product, row-vector and matrix forms of
    the scores, scaling, max-normalisation, value weighting) and the Keras
    layer [ScaledDotProductSA].

    Numbers are modelled as real numbers: a numpy / TensorFlow float is read
    as the real it denotes, so rounding, overflow, NaN and Inf are outside
    this model.  A two-dimensional array carries its shape next to its rows,
    as a numpy array does, so that an array with no row still has a column
    count.  Library primitives that raise on ill-shaped operands ([@],
    broadcasting, reductions over an empty axis) return in an error type.

    The exploratory cells work on numpy arrays.  The layer works on what its
    Dense layers return, TensorFlow tensors, on which two of the operations
    it writes do not exist: the attribute [T], and the square root of an
    integer. *)

From Stdlib Require Import Reals List Lia Lra ZArith Bool Arith.
Import ListNotations.

Open Scope R_scope.

(** ** Exceptions and results *)

(** The exceptions the array primitives raise.  The operand shapes are kept,
    as numpy's and TensorFlow's messages keep them, which tells at which
    operation the exception was raised.  [AttributeError] is Python's, for
    an attribute an object does not have; [InvalidArgumentError] is
    TensorFlow's, for an operation applied to a tensor of a type it does not
    take. *)
Inductive exn : Type :=
| MatmulMismatch (lhs rhs : nat * nat)
| BroadcastMismatch (lhs rhs : nat)
| EmptyReduction
| AttributeError
| InvalidArgumentError.

Inductive res (A : Type) : Type :=
| Ok (a : A)
| Raise (e : exn).

Arguments Ok {A} a.
Arguments Raise {A} e.

Definition bind {A B : Type} (m : res A) (k : A -> res B) : res B :=
  match m with
  | Ok a => k a
  | Raise e => Raise e
  end.

Notation "x <- m ;; k" := (bind m (fun x => k))
  (at level 61, m at next level, right associativity).

Definition raises {A : Type} (m : res A) : Prop :=
  exists e, m = Raise e.

Definition returns {A : Type} (m : res A) : Prop :=
  exists a, m = Ok a.

(** ** Arrays *)

Record ndarray : Type := mkArray {
  nrows : nat;
  ncols : nat;
  rows : list (list R)
}.

Definition shape (M : ndarray) : nat * nat := (nrows M, ncols M).

(** The rows agree with the recorded shape. *)
Definition wf (M : ndarray) : Prop :=
  length (rows M) = nrows M /\
  Forall (fun r => length r = ncols M) (rows M).

Definition has_shape (M : ndarray) (n m : nat) : Prop :=
  nrows M = n /\ ncols M = m /\ wf M.

Definition row (M : ndarray) (i : nat) : list R := nth i (rows M) [].

Definition get (M : ndarray) (i j : nat) : R := nth j (row M i) 0.

(** [np.array([[...], ...])] for a literal with at least one row. *)
Definition array (l : list (list R)) : ndarray :=
  mkArray (length l) (length (hd [] l)) l.

(** [v[None,:]]: a vector seen as a one-row matrix. *)
Definition row_vector (v : list R) : ndarray :=
  mkArray 1 (length v) [v].

(** [np.sum] of a vector. *)
Definition sum (l : list R) : R := fold_right Rplus 0 l.

Fixpoint map2 (f : R -> R -> R) (u v : list R) : list R :=
  match u, v with
  | x :: u', y :: v' => f x y :: map2 f u' v'
  | _, _ => []
  end.

(** [v1 * v2] on vectors, with numpy's broadcasting: equal lengths, or one
    operand of length one stretched over the other. *)
Definition vmul (v1 v2 : list R) : res (list R) :=
  if Nat.eqb (length v1) (length v2) then Ok (map2 Rmult v1 v2)
  else if Nat.eqb (length v1) 1 then Ok (map (fun y => hd 0 v1 * y) v2)
  else if Nat.eqb (length v2) 1 then Ok (map (fun x => x * hd 0 v2) v1)
  else Raise (BroadcastMismatch (length v1) (length v2)).

(** [def dot_prod(v1, v2): return np.sum(v1*v2)] *)
Definition dot_prod (v1 v2 : list R) : res R :=
  p <- vmul v1 v2 ;; Ok (sum p).

(** [M.T] *)
Definition transpose (M : ndarray) : ndarray :=
  mkArray (ncols M) (nrows M)
          (map (fun j => map (fun r => nth j r 0) (rows M)) (seq 0 (ncols M))).

(** [A @ B]: entry (i, j) is the sum over k of A[i][k] * B[k][j]; the inner
    dimensions must agree. *)
Definition matmul (A B : ndarray) : res ndarray :=
  if Nat.eqb (ncols A) (nrows B) then
    Ok (mkArray (nrows A) (ncols B)
          (map (fun r =>
                  map (fun j =>
                         sum (map (fun k => nth k r 0 * get B k j)
                                  (seq 0 (ncols A))))
                      (seq 0 (ncols B)))
               (rows A)))
  else Raise (MatmulMismatch (shape A) (shape B)).

(** [M / c] for a scalar [c]. *)
Definition div_scalar (M : ndarray) (c : R) : ndarray :=
  mkArray (nrows M) (ncols M) (map (map (fun x => x / c)) (rows M)).

(** Softmax of one vector: [exp(x) / sum(exp(x))]. *)
Definition softmax_row (r : list R) : list R :=
  let e := map exp r in
  map (fun x => x / sum e) e.

(** [tf.nn.softmax(M, axis=-1)]: softmax of every row. *)
Definition softmax (M : ndarray) : ndarray :=
  mkArray (nrows M) (ncols M) (map softmax_row (rows M)).

(** Maximum of a non-empty vector. *)
Definition vmax (r : list R) : R :=
  match r with
  | [] => 0
  | x :: r' => fold_left Rmax r' x
  end.

(** [M.max(axis=1)]: the maximum of every row; numpy refuses a reduction
    without identity over an axis of size zero. *)
Definition max_axis1 (M : ndarray) : res (list R) :=
  if Nat.eqb (ncols M) 0 then Raise EmptyReduction
  else Ok (map vmax (rows M)).

(** [M / m[:,None]]: an (n, c) array divided by an (k, 1) column, with
    numpy's broadcasting: row i is divided by m[i] when k = n, every row by
    m[0] when k = 1, and the single row by every m[i] when n = 1. *)
Definition div_rows (M : ndarray) (m : list R) : res ndarray :=
  if Nat.eqb (length m) (nrows M) then
    Ok (mkArray (nrows M) (ncols M)
          (map (fun p => map (fun x => x / snd p) (fst p))
               (combine (rows M) m)))
  else if Nat.eqb (length m) 1 then
    Ok (mkArray (nrows M) (ncols M)
          (map (map (fun x => x / hd 0 m)) (rows M)))
  else if Nat.eqb (nrows M) 1 then
    Ok (mkArray (length m) (ncols M)
          (map (fun c => map (fun x => x / c) (row M 0)) m))
  else Raise (BroadcastMismatch (nrows M) (length m)).

(** ** The exploratory cells *)

(** [A = Q @ K.T] *)
Definition scores (Q K : ndarray) : res ndarray :=
  matmul Q (transpose K).

(** [A_i = q_i[None,:] @ K.T] *)
Definition scores_row (q_i : list R) (K : ndarray) : res ndarray :=
  matmul (row_vector q_i) (transpose K).

(** [A = A / A.max(axis=1)[:,None]] *)
Definition max_normalize (A : ndarray) : res ndarray :=
  m <- max_axis1 A ;; div_rows A m.

(** The exploratory cells in sequence, from the scores to the normalised
    matrix: [A = Q @ K.T], [A = A / np.sqrt(6)],
    [A = A / A.max(axis=1)[:,None]]. *)
Definition explore_weights (Q K : ndarray) : res ndarray :=
  A <- scores Q K ;;
  max_normalize (div_scalar A (sqrt 6)).

(** ... followed by [output = A @ V]. *)
Definition explore_output (Q K V : ndarray) : res ndarray :=
  A <- explore_weights Q K ;;
  matmul A V.

(** ** The layer *)

(** What [call] returns: [output], or the pair [A, output]. *)
Inductive result : Type :=
| Output (output : ndarray)
| AttnOutput (A output : ndarray).

(** A [layers.Dense(units)] with the weights in effect during a call: its
    kernel, of shape (input_dim, units), and its bias, of length units. *)
Record Dense : Type := mkDense {
  kernel : ndarray;
  bias : list R
}.

(** Adding the bias vector to every row; the bias must be as long as the
    rows. *)
Definition bias_add (Y : ndarray) (b : list R) : res ndarray :=
  if Nat.eqb (length b) (ncols Y) then
    Ok (mkArray (nrows Y) (ncols Y) (map (fun r => map2 Rplus r b) (rows Y)))
  else Raise (BroadcastMismatch (ncols Y) (length b)).

(** Calling a Dense layer without activation: [inputs @ kernel + bias]. *)
Definition dense_call (d : Dense) (inputs : ndarray) : res ndarray :=
  Y <- matmul inputs (kernel d) ;; bias_add Y (bias d).

(** The attributes of a [ScaledDotProductSA] object: those set by
    [__init__] and the three Dense layers set by [build]. *)
Record ScaledDotProductSA : Type := mkLayer {
  self_dk : Z;
  self_dv : Z;
  self_return_attn : bool;
  self_Q : Dense;
  self_K : Dense;
  self_V : Dense
}.

(** [K.T] where [K] is what a Dense layer returned: a TensorFlow tensor has
    no attribute [T] (the numpy behaviour of tensors, which would add it, is
    switched on nowhere in the notebook), so the access raises, whatever the
    tensor holds. *)
Definition tensor_T (K : ndarray) : res ndarray := Raise AttributeError.

(** [tf.math.sqrt(self.dk)], with [self.dk] the Python int that is also
    given to [layers.Dense]: the square root takes floating-point tensors
    only and rejects an integer. *)
Definition tf_sqrt_int (dk : Z) : res R := Raise InvalidArgumentError.

(** [ScaledDotProductSA.call]: the three projections of the input, then
    [A = Q @ K.T], [A = tf.nn.softmax(A/tf.math.sqrt(self.dk), axis=-1)],
    [output = A @ V], and [return A, output] or [return output].  The
    tensors are modelled by their entries. *)
Definition call (self : ScaledDotProductSA) (inputs : ndarray) : res result :=
  Q <- dense_call (self_Q self) inputs ;;
  K <- dense_call (self_K self) inputs ;;
  V <- dense_call (self_V self) inputs ;;
  KT <- tensor_T K ;;
  A <- matmul Q KT ;;
  s <- tf_sqrt_int (self_dk self) ;;
  let A := softmax (div_scalar A s) in
  output <- matmul A V ;;
  if self_return_attn self then Ok (AttnOutput A output)
  else Ok (Output output).

(** The same layer constructed with another [return_attn]. *)
Definition with_return_attn (self : ScaledDotProductSA) (b : bool)
  : ScaledDotProductSA :=
  mkLayer (self_dk self) (self_dv self) b
          (self_Q self) (self_K self) (self_V self).

(** ** The notebook's sample vectors *)

(** [q_i = np.linspace(1,6, num=6)], [k_1], [k_2] as in the notebook; the
    notebook draws its value vectors at random, two fixed ones stand for
    them. *)
Definition q_1 : list R := [1; 2; 3; 4; 5; 6].
Definition k_1 : list R := [1; 0; -1; 2; 7; 4].
Definition k_2 : list R := [1; 2; 3; 4; 7; 6].
Definition v_1 : list R := [0; 1; 2; 3; 4; 5].
Definition v_2 : list R := [6; 5; 4; 3; 2; 1].


(** A small layer, [ScaledDotProductSA(1, 1, return_attn=True)] with
    weights for inputs with two columns, and such an input. *)
Definition layer_0 : ScaledDotProductSA :=
  mkLayer 1 1 true
          (mkDense (array [[1]; [0]]) [0])
          (mkDense (array [[0]; [1]]) [1])
          (mkDense (array [[1]; [1]]) [0]).
Definition X_0 : ndarray := array [[1; 2]; [3; 4]].

(** ** Further cells of the notebook *)

(** [np.einsum("i,ji", q_i, K)]: the index [i] is summed, the index [j]
    remains.  A summed dimension of size one is stretched over the other
    operand's, as numpy's einsum does. *)
Definition einsum_i_ji (q_i : list R) (K : ndarray) : res (list R) :=
  let n := length q_i in
  let c := ncols K in
  if Nat.eqb n c || Nat.eqb n 1 || Nat.eqb c 1 then
    Ok (map (fun r =>
               sum (map (fun i =>
                           nth (if Nat.eqb n 1 then 0%nat else i) q_i 0
                           * nth (if Nat.eqb c 1 then 0%nat else i) r 0)
                        (seq 0 (if Nat.eqb n 1 then c else n))))
            (rows K))
  else Raise (BroadcastMismatch n c).

(** [np.concatenate([A, B], axis=0)]: the rows of [A], then those of [B];
    the column counts must agree (the exception keeps the two counts). *)
Definition concatenate (A B : ndarray) : res ndarray :=
  if Nat.eqb (ncols A) (ncols B) then
    Ok (mkArray (nrows A + nrows B) (ncols A) (rows A ++ rows B))
  else Raise (BroadcastMismatch (ncols A) (ncols B)).

(** * Properties *)

(** ** Sums and indexed lists *)

Lemma nth_map_seq (A : Type) (f : nat -> A) (n i : nat) (d : A) :
  (i < n)%nat -> nth i (map f (seq 0 n)) d = f i.
Proof.
  intros Hi.
  rewrite (nth_indep _ d (f 0%nat)) by (rewrite length_map, length_seq; lia).
  rewrite map_nth, seq_nth by lia. reflexivity.
Qed.

Lemma nth_map_in (A B : Type) (f : A -> B) (l : list A) (d : A) (d' : B)
      (i : nat) :
  (i < length l)%nat -> nth i (map f l) d' = f (nth i l d).
Proof.
  revert i. induction l as [|x l IH]; intros [|i]; simpl; intros Hi;
    try lia; auto. apply IH. lia.
Qed.

Lemma sum_map_ext_in (A : Type) (f g : A -> R) (l : list A) :
  (forall x, In x l -> f x = g x) -> sum (map f l) = sum (map g l).
Proof.
  intros H. rewrite (map_ext_in f g l H). reflexivity.
Qed.

Lemma sum_map_div (l : list R) (c : R) :
  sum (map (fun x => x / c) l) = sum l / c.
Proof.
  induction l as [|x l IH]; simpl.
  - unfold Rdiv. ring.
  - rewrite IH. unfold Rdiv. ring.
Qed.

(** The sum of the elementwise products is the sum over the indices. *)
Lemma sum_map2_index (u v : list R) :
  length u = length v ->
  sum (map2 Rmult u v)
  = sum (map (fun k => nth k u 0 * nth k v 0) (seq 0 (length u))).
Proof.
  revert v. induction u as [|x u IH]; intros [|y v]; simpl; intros H;
    try discriminate; auto.
  rewrite <- seq_shift, map_map. simpl. f_equal. apply IH. lia.
Qed.

(** Entry [j] of column [i] is entry [i] of row [j], also out of range. *)
Lemma nth_column (l : list (list R)) (i j : nat) :
  nth j (map (fun r => nth i r 0) l) 0 = nth i (nth j l []) 0.
Proof.
  revert j. induction l as [|r l IH]; intros [|j]; simpl; auto;
    destruct i; reflexivity.
Qed.

(** ** Shapes and entries of the primitives *)

Lemma wf_row_length (M : ndarray) (i : nat) :
  wf M -> (i < nrows M)%nat -> length (row M i) = ncols M.
Proof.
  intros [Hn Hr] Hi. unfold row.
  rewrite Forall_forall in Hr. apply Hr, nth_In. lia.
Qed.

Lemma transpose_get (M : ndarray) (i j : nat) :
  (i < ncols M)%nat -> get (transpose M) i j = get M j i.
Proof.
  intros Hi. unfold get, row, transpose; simpl.
  rewrite nth_map_seq by assumption.
  apply nth_column.
Qed.

Lemma matmul_Ok (A B : ndarray) :
  ncols A = nrows B ->
  matmul A B =
  Ok (mkArray (nrows A) (ncols B)
        (map (fun r =>
                map (fun j =>
                       sum (map (fun k => nth k r 0 * get B k j)
                                (seq 0 (ncols A))))
                    (seq 0 (ncols B)))
             (rows A))).
Proof.
  intros H. unfold matmul. now rewrite (proj2 (Nat.eqb_eq _ _) H).
Qed.

Lemma matmul_Raise (A B : ndarray) :
  ncols A <> nrows B ->
  matmul A B = Raise (MatmulMismatch (shape A) (shape B)).
Proof.
  intros H. unfold matmul. now rewrite (proj2 (Nat.eqb_neq _ _) H).
Qed.

Lemma matmul_inv (A B C : ndarray) :
  matmul A B = Ok C ->
  ncols A = nrows B /\
  C = mkArray (nrows A) (ncols B)
        (map (fun r =>
                map (fun j =>
                       sum (map (fun k => nth k r 0 * get B k j)
                                (seq 0 (ncols A))))
                    (seq 0 (ncols B)))
             (rows A)).
Proof.
  unfold matmul. destruct (Nat.eqb_spec (ncols A) (nrows B)) as [E|E];
    intros H; inversion H. auto.
Qed.

Lemma matmul_shape (A B C : ndarray) :
  matmul A B = Ok C -> wf A -> has_shape C (nrows A) (ncols B).
Proof.
  intros H [Hn _]. apply matmul_inv in H as [_ ->].
  repeat split; simpl.
  - now rewrite length_map.
  - rewrite Forall_forall. intros r Hr.
    apply in_map_iff in Hr as [r' [<- _]].
    now rewrite length_map, length_seq.
Qed.

Lemma matmul_get (A B C : ndarray) (i j : nat) :
  matmul A B = Ok C -> (i < length (rows A))%nat -> (j < ncols B)%nat ->
  get C i j = sum (map (fun k => get A i k * get B k j) (seq 0 (ncols A))).
Proof.
  intros H Hi Hj. apply matmul_inv in H as [_ ->].
  unfold get at 1, row; simpl.
  rewrite (nth_map_in _ _ _ _ [] []) by assumption.
  rewrite nth_map_seq by assumption. reflexivity.
Qed.

Lemma vmul_same_length (u v : list R) :
  length u = length v -> vmul u v = Ok (map2 Rmult u v).
Proof.
  intros H. unfold vmul. now rewrite (proj2 (Nat.eqb_eq _ _) H).
Qed.

Lemma dot_prod_index (u v : list R) :
  length u = length v ->
  dot_prod u v
  = Ok (sum (map (fun k => nth k u 0 * nth k v 0) (seq 0 (length u)))).
Proof.
  intros H. unfold dot_prod. rewrite vmul_same_length by assumption.
  simpl. now rewrite sum_map2_index.
Qed.

Lemma scores_Ok (Q K : ndarray) :
  ncols Q = ncols K -> exists S, scores Q K = Ok S.
Proof.
  intros H. unfold scores. rewrite matmul_Ok by exact H. eauto.
Qed.

(** Entry (i, j) of [Q @ K.T] is [dot_prod] of row i of [Q] and row j of
    [K]. *)
Lemma scores_get (Q K S : ndarray) (i j : nat) :
  wf Q -> wf K -> ncols Q = ncols K ->
  scores Q K = Ok S -> (i < nrows Q)%nat -> (j < nrows K)%nat ->
  dot_prod (row Q i) (row K j) = Ok (get S i j).
Proof.
  intros HQ HK Hd HS Hi Hj. unfold scores in HS.
  rewrite (matmul_get _ _ _ i j HS);
    [ | destruct HQ; lia | exact Hj ].
  rewrite dot_prod_index
    by (rewrite !wf_row_length by assumption; exact Hd).
  rewrite wf_row_length by assumption. f_equal.
  apply sum_map_ext_in. intros k Hk. apply in_seq in Hk.
  rewrite transpose_get by lia. reflexivity.
Qed.

(** C10: for Q of shape (n_q, d) and K of shape (n_k, d), [Q @ K.T] is
    defined, has shape (n_q, n_k), its entry (i, j) is
    [dot_prod(Q[i], K[j])], the sum of the elementwise products, and the
    single-query form [q_i[None,:] @ K.T] is row i of it: the loop form, the
    row-vector form and the matrix form compute the same scores. *)
Theorem scores_forms_agree (Q K : ndarray) (n_q n_k d : nat) :
  has_shape Q n_q d -> has_shape K n_k d ->
  exists S,
    scores Q K = Ok S /\
    has_shape S n_q n_k /\
    (forall i j, (i < n_q)%nat -> (j < n_k)%nat ->
       dot_prod (row Q i) (row K j) = Ok (get S i j) /\
       get S i j = sum (map2 Rmult (row Q i) (row K j))) /\
    (forall i, (i < n_q)%nat ->
       scores_row (row Q i) K = Ok (row_vector (row S i))).
Proof.
  intros (HQn & HQd & HQ) (HKn & HKd & HK).
  assert (Hd : ncols Q = ncols K) by lia.
  destruct (scores_Ok Q K Hd) as [S HS].
  exists S. split; [exact HS|].
  assert (Hsh : has_shape S n_q n_k).
  { destruct (matmul_shape _ _ _ HS HQ) as (H1 & H2 & H3).
    simpl in H2. repeat split; try lia; apply H3. }
  split; [exact Hsh|]. split.
  - intros i j Hi Hj.
    assert (E : dot_prod (row Q i) (row K j) = Ok (get S i j))
      by (apply scores_get; auto; lia).
    split; [exact E|].
    unfold dot_prod in E.
    rewrite vmul_same_length in E
      by (rewrite !wf_row_length by (assumption || lia); exact Hd).
    simpl in E. congruence.
  - intros i Hi. unfold scores_row, row_vector.
    assert (Hlen : length (row Q i) = ncols Q)
      by (apply wf_row_length; [assumption | lia]).
    rewrite matmul_Ok by (simpl; lia). simpl.
    unfold scores in HS. apply matmul_inv in HS as [_ ->].
    unfold row at 3 4. simpl.
    rewrite (nth_map_in _ _ _ _ [] []) by (destruct HQ; lia).
    fold (row Q i). rewrite !length_map, !length_seq, Hlen.
    reflexivity.
Qed.

Lemma scores_forms_agree_witness :
  exists S,
    scores (array [q_1]) (array [k_1; k_2]) = Ok S /\
    has_shape S 1 2 /\
    (forall i j, (i < 1)%nat -> (j < 2)%nat ->
       dot_prod (row (array [q_1]) i) (row (array [k_1; k_2]) j)
       = Ok (get S i j) /\
       get S i j
       = sum (map2 Rmult (row (array [q_1]) i) (row (array [k_1; k_2]) j))) /\
    (forall i, (i < 1)%nat ->
       scores_row (row (array [q_1]) i) (array [k_1; k_2])
       = Ok (row_vector (row S i))).
Proof.
  apply (scores_forms_agree (array [q_1]) (array [k_1; k_2]) 1 2 6).
  - repeat split; simpl; repeat constructor.
  - repeat split; simpl; repeat constructor.
Defined.

(** ** Softmax *)

(** The softmax step that [call] writes, as a function of the scores. *)

Lemma sum_exp_pos (r : list R) : r <> [] -> 0 < sum (map exp r).
Proof.
  destruct r as [|x r]; [congruence | intros _].
  revert x. induction r as [|y r IH]; intros x; simpl.
  - pose proof (exp_pos x). lra.
  - pose proof (exp_pos x). specialize (IH y). simpl in IH. lra.
Qed.

Lemma softmax_row_pos (r : list R) :
  Forall (fun a => 0 < a) (softmax_row r).
Proof.
  rewrite Forall_forall. intros a Ha. unfold softmax_row in Ha.
  apply in_map_iff in Ha as [e [<- He]].
  apply in_map_iff in He as [x [<- Hx]].
  apply Rdiv_lt_0_compat; [apply exp_pos|].
  apply sum_exp_pos. intros ->. contradiction.
Qed.

Lemma softmax_row_sum (r : list R) : r <> [] -> sum (softmax_row r) = 1.
Proof.
  intros Hr. unfold softmax_row. rewrite sum_map_div.
  pose proof (sum_exp_pos r Hr). field. lra.
Qed.

(** Softmax is unchanged when a constant, such as the row maximum, is
    subtracted from every score. *)
Lemma softmax_row_shift (r : list R) (c : R) :
  softmax_row (map (fun x => x - c) r) = softmax_row r.
Proof.
  unfold softmax_row.
  assert (E : sum (map exp (map (fun x => x - c) r))
              = sum (map exp r) / exp c).
  { rewrite <- sum_map_div, !map_map. apply sum_map_ext_in.
    intros x _. unfold Rminus. rewrite exp_plus, exp_Ropp. reflexivity. }
  rewrite E, !map_map. apply map_ext_in. intros x Hx.
  assert (0 < sum (map exp r))
    by (apply sum_exp_pos; intros ->; contradiction).
  pose proof (exp_pos c).
  unfold Rminus. rewrite exp_plus, exp_Ropp. field. lra.
Qed.

Lemma div_scalar_shape (M : ndarray) (c : R) :
  wf M -> has_shape (div_scalar M c) (nrows M) (ncols M).
Proof.
  intros [Hn Hr]. repeat split; simpl.
  - now rewrite length_map.
  - rewrite Forall_forall in *. intros r H.
    apply in_map_iff in H as [r' [<- H]]. rewrite length_map. auto.
Qed.

Lemma softmax_row_of (M : ndarray) (i : nat) :
  (i < length (rows M))%nat -> row (softmax M) i = softmax_row (row M i).
Proof.
  intros Hi. unfold row; simpl.
  now rewrite (nth_map_in _ _ _ _ [] []) by assumption.
Qed.

(** Every row of a softmax over at least one column is a probability
    distribution. *)
Lemma softmax_rows_distribution (M : ndarray) (i : nat) :
  wf M -> (i < nrows M)%nat -> (0 < ncols M)%nat ->
  Forall (fun a => 0 <= a) (row (softmax M) i) /\ sum (row (softmax M) i) = 1.
Proof.
  intros HM Hi Hc.
  rewrite softmax_row_of by (destruct HM; lia). split.
  - eapply Forall_impl; [|apply softmax_row_pos]. simpl. intros; lra.
  - apply softmax_row_sum. intros E.
    pose proof (wf_row_length M i HM Hi) as Hl. rewrite E in Hl.
    simpl in Hl. lia.
Qed.

(** ** The layer *)

Lemma call_after_projections (self : ScaledDotProductSA) (X Q K V : ndarray) :
  dense_call (self_Q self) X = Ok Q ->
  dense_call (self_K self) X = Ok K ->
  dense_call (self_V self) X = Ok V ->
  call self X = Raise AttributeError.
Proof.
  intros HQ HK HV. unfold call. rewrite HQ, HK, HV. reflexivity.
Qed.

Lemma call_not_Ok (self : ScaledDotProductSA) (X : ndarray) (r : result) :
  call self X <> Ok r.
Proof.
  unfold call.
  destruct (dense_call (self_Q self) X) as [Q|e]; simpl; [|discriminate].
  destruct (dense_call (self_K self) X) as [K|e]; simpl; [|discriminate].
  destruct (dense_call (self_V self) X) as [V|e]; simpl; discriminate.
Qed.

(** The projections of the sample input by the sample layer. *)
Lemma layer_0_projections :
  dense_call (self_Q layer_0) X_0 = Ok (array [[1]; [3]]) /\
  dense_call (self_K layer_0) X_0 = Ok (array [[3]; [5]]) /\
  dense_call (self_V layer_0) X_0 = Ok (array [[3]; [7]]).
Proof.
  unfold dense_call, matmul, bias_add, layer_0, X_0, array. simpl.
  unfold get, row. simpl.
  repeat split; do 2 f_equal;
    (f_equal; [f_equal; lra | f_equal; f_equal; lra]).
Qed.

Lemma call_layer_0 (b : bool) :
  call (with_return_attn layer_0 b) X_0 = Raise AttributeError.
Proof.
  destruct layer_0_projections as (HQ & HK & HV).
  exact (call_after_projections (with_return_attn layer_0 b) X_0 _ _ _
           HQ HK HV).
Qed.

(** C1: [ScaledDotProductSA.call] does not return O = A · V: it returns on no
    input.  Whenever the three projections of the input are computed, the
    next step, [A = Q @ K.T], raises AttributeError, before any score is
    computed. *)
Theorem call_never_returns (self : ScaledDotProductSA) (X : ndarray) :
  (forall r, call self X <> Ok r) /\
  (forall Q K V,
     dense_call (self_Q self) X = Ok Q ->
     dense_call (self_K self) X = Ok K ->
     dense_call (self_V self) X = Ok V ->
     call self X = Raise AttributeError).
Proof.
  split; [apply call_not_Ok | apply call_after_projections].
Qed.

Lemma call_never_returns_witness :
  call layer_0 X_0 = Raise AttributeError.
Proof.
  destruct layer_0_projections as (HQ & HK & HV).
  exact (proj2 (call_never_returns layer_0 X_0) _ _ _ HQ HK HV).
Defined.

(** C2: [call] returns no attention matrix: on the sample layer, which has
    [return_attn=True], and the sample input it raises AttributeError, and
    on no layer and no input does it return a pair (A, output). *)
Theorem call_returns_no_attention_matrix :
  call layer_0 X_0 = Raise AttributeError /\
  forall (self : ScaledDotProductSA) (X A O : ndarray),
    call self X <> Ok (AttnOutput A O).
Proof.
  split; [exact (call_layer_0 true)|].
  intros self X A O. apply call_not_Ok.
Qed.

(** C4: with [return_attn] set or not, [call] raises before it reaches its
    [return]: on the sample layer and input both settings raise
    AttributeError, and on no layer and no input does either setting return
    an output. *)
Theorem call_raises_under_both_settings :
  call (with_return_attn layer_0 false) X_0 = Raise AttributeError /\
  call (with_return_attn layer_0 true) X_0 = Raise AttributeError /\
  forall (self : ScaledDotProductSA) (X : ndarray) (b : bool) (r : result),
    call (with_return_attn self b) X <> Ok r.
Proof.
  split; [exact (call_layer_0 false)|]. split; [exact (call_layer_0 true)|].
  intros self X b r. apply call_not_Ok.
Qed.

(** C6: [call] computes the three projections and then raises instead of
    applying the attention steps to them: on the sample layer and input the
    projections are Q = [[1], [3]], K = [[3], [5]], V = [[3], [7]], and
    [call] raises AttributeError; so it does for every layer and input whose
    projections are computed. *)
Theorem call_projects_then_raises :
  dense_call (self_Q layer_0) X_0 = Ok (array [[1]; [3]]) /\
  dense_call (self_K layer_0) X_0 = Ok (array [[3]; [5]]) /\
  dense_call (self_V layer_0) X_0 = Ok (array [[3]; [7]]) /\
  call layer_0 X_0 = Raise AttributeError /\
  forall (self : ScaledDotProductSA) (X Q K V : ndarray),
    dense_call (self_Q self) X = Ok Q ->
    dense_call (self_K self) X = Ok K ->
    dense_call (self_V self) X = Ok V ->
    call self X = Raise AttributeError.
Proof.
  destruct layer_0_projections as (HQ & HK & HV).
  repeat (split; [assumption|]).
  split; [exact (call_layer_0 true)|]. apply call_after_projections.
Qed.

(** ** The literal scenario *)

Lemma sqrt_between (x lo hi : R) :
  0 <= lo -> lo * lo < x -> x < hi * hi -> 0 <= hi -> lo < sqrt x < hi.
Proof.
  intros Hlo H1 H2 Hhi. split.
  - rewrite <- (sqrt_square lo Hlo). apply sqrt_lt_1; nra.
  - rewrite <- (sqrt_square hi Hhi). apply sqrt_lt_1; nra.
Qed.

Lemma inv_sqrt_6_bounds : 0.408248 < / sqrt 6 < 0.40825.
Proof.
  assert (H : 2.44948 < sqrt 6 < 2.44949) by (apply sqrt_between; lra).
  assert (Hp : 0 < / sqrt 6) by (apply Rinv_0_lt_compat; lra).
  assert (E : / sqrt 6 * sqrt 6 = 1) by (apply Rinv_l; lra).
  split; nra.
Qed.

Lemma dot_prod_q_1_k_1 : dot_prod q_1 k_1 = Ok 65.
Proof.
  unfold dot_prod, vmul, q_1, k_1. simpl. f_equal. lra.
Qed.

Lemma dot_prod_q_1_k_2 : dot_prod q_1 k_2 = Ok 101.
Proof.
  unfold dot_prod, vmul, q_1, k_2. simpl. f_equal. lra.
Qed.

Lemma scores_literal :
  scores (array [q_1]) (array [k_1; k_2]) = Ok (array [[65; 101]]).
Proof.
  unfold scores, matmul, array, q_1, k_1, k_2. simpl.
  unfold get, row. simpl. repeat f_equal; lra.
Qed.

(** The scores of the literal are not [[45, 85]]. *)
Lemma literal_scores_not_45_85 :
  dot_prod q_1 k_1 <> Ok 45 /\
  dot_prod q_1 k_2 <> Ok 85 /\
  scores (array [q_1]) (array [k_1; k_2]) <> Ok (array [[45; 85]]).
Proof.
  rewrite dot_prod_q_1_k_1, dot_prod_q_1_k_2, scores_literal.
  repeat split; intros H; injection H; intros; lra.
Qed.

(** C7, as the code computes it: on the literal Q = [[1,2,3,4,5,6]],
    K = [[1,0,-1,2,7,4], [1,2,3,4,7,6]], the two dot products are 65 and 101,
    the raw score matrix [Q @ K.T] is exactly [[65, 101]], and the scores
    scaled by [sqrt(6)] are within 0.005 of 26.54 and 41.23. *)
Theorem literal_scores_and_scaling :
  dot_prod q_1 k_1 = Ok 65 /\
  dot_prod q_1 k_2 = Ok 101 /\
  scores (array [q_1]) (array [k_1; k_2]) = Ok (array [[65; 101]]) /\
  exists s1 s2,
    div_scalar (array [[65; 101]]) (sqrt 6) = array [[s1; s2]] /\
    Rabs (s1 - 26.54) < 0.005 /\
    Rabs (s2 - 41.23) < 0.005.
Proof.
  split; [exact dot_prod_q_1_k_1|]. split; [exact dot_prod_q_1_k_2|].
  split; [exact scores_literal|].
  pose proof inv_sqrt_6_bounds as Hb.
  exists (65 / sqrt 6), (101 / sqrt 6).
  split; [reflexivity|].
  split; apply Rabs_def1; unfold Rdiv; lra.
Qed.

(** ** Max-normalisation *)

Lemma explore_weights_literal :
  explore_weights (array [q_1]) (array [k_1; k_2])
  = Ok (array [[65 / 101; 1]]).
Proof.
  unfold explore_weights. rewrite scores_literal.
  assert (Hs : 0 < / sqrt 6) by (pose proof inv_sqrt_6_bounds; lra).
  assert (Hm : Rmax (65 / sqrt 6) (101 / sqrt 6) = 101 / sqrt 6)
    by (apply Rmax_right; unfold Rdiv; nra).
  unfold bind, max_normalize, max_axis1, div_rows, div_scalar, array, vmax.
  cbn [nrows ncols rows length map hd Nat.eqb fold_left combine fst snd bind].
  rewrite Hm. do 3 f_equal.
  assert (Hn : sqrt 6 <> 0)
    by (intros E; rewrite E, Rinv_0 in Hs; lra).
  f_equal; [field; exact Hn | f_equal; field; exact Hn].
Qed.

(** C9: dividing every row of the scaled scores by its maximum does not give
    a probability distribution: on the notebook's query and keys, of shapes
    (1, 6) and (2, 6), the normalised row is (65/101, 1), which sums to
    166/101 and not to 1. *)
Theorem max_normalize_not_distribution :
  exists Q K M,
    has_shape Q 1 6 /\ has_shape K 2 6 /\
    explore_weights Q K = Ok M /\
    has_shape M 1 2 /\
    exists i, (i < nrows M)%nat /\
      sum (row M i) = 166 / 101 /\ sum (row M i) <> 1.
Proof.
  exists (array [q_1]), (array [k_1; k_2]), (array [[65 / 101; 1]]).
  split; [repeat split; simpl; repeat constructor|].
  split; [repeat split; simpl; repeat constructor|].
  split; [exact explore_weights_literal|].
  split; [repeat split; simpl; repeat constructor|].
  exists 0%nat. split; [simpl; lia|].
  unfold row, sum. simpl. split; lra.
Qed.

(** * Further properties *)

(** ** The loop dot product *)

Lemma map2_Rmult_comm (u v : list R) : map2 Rmult u v = map2 Rmult v u.
Proof.
  revert v. induction u as [|x u IH]; intros [|y v]; simpl; auto.
  rewrite IH. f_equal. ring.
Qed.

Lemma sum_map_scal_l (c : R) (l : list R) :
  sum (map (fun y => c * y) l) = c * sum l.
Proof.
  induction l as [|x l IH]; simpl; [ring | rewrite IH; ring].
Qed.

Lemma sum_map_scal_r (c : R) (l : list R) :
  sum (map (fun x => x * c) l) = sum l * c.
Proof.
  induction l as [|x l IH]; simpl; [ring | rewrite IH; ring].
Qed.

Lemma dot_prod_swap (v1 v2 : list R) (x : R) :
  dot_prod v1 v2 = Ok x -> dot_prod v2 v1 = Ok x.
Proof.
  unfold dot_prod, vmul.
  destruct (Nat.eqb_spec (length v1) (length v2)) as [E|E].
  - rewrite <- E, Nat.eqb_refl. simpl. now rewrite map2_Rmult_comm.
  - destruct (Nat.eqb_spec (length v2) (length v1)) as [E'|_];
      [congruence|].
    destruct (Nat.eqb_spec (length v1) 1) as [E1|E1].
    + destruct (Nat.eqb_spec (length v2) 1) as [E2|_]; [congruence|].
      simpl. intros H. rewrite <- H. f_equal. f_equal.
      apply map_ext. intros; ring.
    + destruct (Nat.eqb_spec (length v2) 1) as [E2|E2]; simpl;
        [|discriminate].
      intros H. rewrite <- H. f_equal. f_equal.
      apply map_ext. intros; ring.
Qed.

(** X1: [dot_prod] is symmetric: with its operands exchanged it returns the
    same number, broadcast cases included, and raises in the same cases. *)
Theorem dot_prod_symmetric (v1 v2 : list R) :
  (forall x, dot_prod v1 v2 = Ok x <-> dot_prod v2 v1 = Ok x) /\
  (raises (dot_prod v1 v2) <-> raises (dot_prod v2 v1)).
Proof.
  assert (H : forall u v, raises (dot_prod u v) -> raises (dot_prod v u)).
  { intros u v [e He]. destruct (dot_prod v u) as [x|e'] eqn:E.
    - apply dot_prod_swap in E. congruence.
    - now exists e'. }
  split; [intros x; split; apply dot_prod_swap | split; apply H].
Qed.

(** X2: [dot_prod] raises exactly when the two lengths differ and neither
    is 1.  A one-element operand does not raise against a vector of another
    length: it is broadcast, and the result is that element times the sum of
    the other vector. *)
Theorem dot_prod_broadcasts (v1 v2 : list R) (c : R) :
  (raises (dot_prod v1 v2)
   <-> (length v1 <> length v2 /\ length v1 <> 1 /\ length v2 <> 1)%nat) /\
  dot_prod [c] v2 = Ok (c * sum v2) /\
  dot_prod v1 [c] = Ok (sum v1 * c).
Proof.
  split; [|split].
  - unfold dot_prod, vmul, raises.
    destruct (Nat.eqb_spec (length v1) (length v2)) as [E|E]; simpl.
    + split; [intros [e He]; discriminate | intros [H _]; contradiction].
    + destruct (Nat.eqb_spec (length v1) 1) as [E1|E1]; simpl.
      * split; [intros [e He]; discriminate | intros (_ & H & _); contradiction].
      * destruct (Nat.eqb_spec (length v2) 1) as [E2|E2]; simpl.
        -- split; [intros [e He]; discriminate
                  | intros (_ & _ & H); contradiction].
        -- split; [auto | eauto].
  - unfold dot_prod, vmul. simpl length.
    destruct (Nat.eqb_spec 1 (length v2)) as [E|E]; simpl.
    + destruct v2 as [|y [|z v2]]; simpl in E; try discriminate.
      simpl. f_equal. ring.
    + now rewrite sum_map_scal_l.
  - unfold dot_prod, vmul. simpl length.
    destruct (Nat.eqb_spec (length v1) 1) as [E|E]; simpl.
    + destruct v1 as [|y [|z v1]]; simpl in E; try discriminate.
      simpl. f_equal. ring.
    + now rewrite sum_map_scal_r.
Qed.

(** ** The Einstein-summation form *)

Lemma matmul_row (A B C : ndarray) (i : nat) :
  matmul A B = Ok C -> (i < length (rows A))%nat ->
  row C i
  = map (fun j =>
           sum (map (fun k => get A i k * get B k j) (seq 0 (ncols A))))
        (seq 0 (ncols B)).
Proof.
  intros H Hi. apply matmul_inv in H as [_ ->].
  unfold row at 1. simpl.
  now rewrite (nth_map_in _ _ _ _ [] []) by assumption.
Qed.

Lemma einsum_same_length (q : list R) (K : ndarray) :
  length q = ncols K ->
  einsum_i_ji q K
  = Ok (map (fun r => sum (map (fun i => nth i q 0 * nth i r 0)
                               (seq 0 (length q))))
            (rows K)).
Proof.
  intros E. unfold einsum_i_ji. rewrite <- E, Nat.eqb_refl. simpl.
  f_equal. apply map_ext. intros r.
  destruct (Nat.eqb_spec (length q) 1) as [E1|E1]; [|reflexivity].
  rewrite E1. reflexivity.
Qed.

(** X3: for a query as long as the rows of K, the Einstein-summation form
    [np.einsum("i,ji", q, K)] returns one number per key, entry j being
    [dot_prod(q, K[j])], and the row-vector form [q[None,:] @ K.T] is that
    vector as a one-row matrix. *)
Theorem einsum_is_dot_prod (q : list R) (K : ndarray) (n_k d : nat) :
  has_shape K n_k d -> length q = d ->
  exists out,
    einsum_i_ji q K = Ok out /\
    length out = n_k /\
    (forall j, (j < n_k)%nat -> dot_prod q (row K j) = Ok (nth j out 0)) /\
    scores_row q K = Ok (row_vector out).
Proof.
  intros (HKn & HKd & HK) Hq.
  rewrite einsum_same_length by lia.
  eexists. split; [reflexivity|].
  assert (Hlen : length (rows K) = n_k) by (destruct HK; lia).
  split; [now rewrite length_map|].
  assert (Hnth : forall j, (j < n_k)%nat ->
            nth j (map (fun r => sum (map (fun i => nth i q 0 * nth i r 0)
                                          (seq 0 (length q)))) (rows K)) 0
            = sum (map (fun i => nth i q 0 * nth i (row K j) 0)
                       (seq 0 (length q)))).
  { intros j Hj. now rewrite (nth_map_in _ _ _ _ [] 0) by lia. }
  split.
  - intros j Hj. rewrite Hnth by assumption.
    apply dot_prod_index. rewrite wf_row_length by (assumption || lia). lia.
  - unfold scores_row. rewrite matmul_Ok by (simpl; lia).
    unfold row_vector. simpl. rewrite length_map, Hlen, HKn. do 3 f_equal.
    apply nth_ext with (d := 0) (d' := 0).
    + now rewrite !length_map, length_seq.
    + intros j. rewrite length_map, length_seq. intros Hj.
      rewrite nth_map_seq, Hnth by lia.
      apply sum_map_ext_in. intros i Hi. apply in_seq in Hi.
      rewrite transpose_get by lia. reflexivity.
Qed.

Lemma einsum_is_dot_prod_witness :
  exists out,
    einsum_i_ji q_1 (array [k_1; k_2]) = Ok out /\
    length out = 2%nat /\
    (forall j, (j < 2)%nat ->
       dot_prod q_1 (row (array [k_1; k_2]) j) = Ok (nth j out 0)) /\
    scores_row q_1 (array [k_1; k_2]) = Ok (row_vector out).
Proof.
  apply (einsum_is_dot_prod q_1 (array [k_1; k_2]) 2 6);
    repeat split; simpl; repeat constructor.
Defined.

(** X4: the two forms differ on a one-element query against keys with
    another number of columns: the matrix form raises, the Einstein-summation
    form broadcasts the element and returns, for every key, the element
    times the sum of the key. *)
Theorem einsum_broadcasts_where_matmul_raises (c : R) (K : ndarray) :
  ncols K <> 1%nat ->
  raises (scores_row [c] K) /\
  einsum_i_ji [c] K = Ok (map (fun r => c * sum (map (fun i => nth i r 0)
                                                    (seq 0 (ncols K))))
                              (rows K)).
Proof.
  intros Hc. split.
  - unfold scores_row. rewrite matmul_Raise by (simpl; lia). eexists.
    reflexivity.
  - unfold einsum_i_ji. simpl length. rewrite Nat.eqb_refl.
    rewrite orb_true_r. simpl. f_equal. apply map_ext. intros r.
    rewrite <- sum_map_scal_l, map_map.
    destruct (Nat.eqb_spec (ncols K) 1) as [E|_]; [contradiction|].
    reflexivity.
Qed.

Lemma einsum_broadcasts_where_matmul_raises_witness :
  raises (scores_row [2] (array [k_1; k_2])) /\
  einsum_i_ji [2] (array [k_1; k_2])
  = Ok (map (fun r => 2 * sum (map (fun i => nth i r 0)
                                   (seq 0 (ncols (array [k_1; k_2])))))
            (rows (array [k_1; k_2]))).
Proof.
  apply (einsum_broadcasts_where_matmul_raises 2 (array [k_1; k_2])).
  simpl. lia.
Defined.

(** ** Stacking keys *)

Lemma concatenate_shape (A B : ndarray) (n m c : nat) :
  has_shape A n c -> has_shape B m c ->
  concatenate A B = Ok (mkArray (n + m) c (rows A ++ rows B)) /\
  has_shape (mkArray (n + m) c (rows A ++ rows B)) (n + m) c.
Proof.
  intros (HAn & HAc & HAl & HAr) (HBn & HBc & HBl & HBr).
  unfold concatenate. rewrite HAc, HBc, Nat.eqb_refl, HAn, HBn.
  split; [reflexivity|]. repeat split; simpl.
  - rewrite length_app. lia.
  - apply Forall_app. split.
    + eapply Forall_impl; [|exact HAr]. simpl. intros; lia.
    + eapply Forall_impl; [|exact HBr]. simpl. intros; lia.
Qed.

Lemma seq_from (n m : nat) : seq n m = map (fun j => (n + j)%nat) (seq 0 m).
Proof.
  induction n as [|n IH]; simpl.
  - now rewrite map_id.
  - rewrite <- seq_shift, IH, map_map. reflexivity.
Qed.

(** X5: stacking two sets of keys with [np.concatenate(..., axis=0)] puts
    their scores side by side: row i of [Q @ K.T] for the stacked keys is
    row i of the scores against the first keys followed by row i of the
    scores against the second ones. *)
Theorem scores_of_stacked_keys (Q K1 K2 : ndarray) (n_q n1 n2 d : nat) :
  has_shape Q n_q d -> has_shape K1 n1 d -> has_shape K2 n2 d ->
  exists K S1 S2 S,
    concatenate K1 K2 = Ok K /\
    has_shape K (n1 + n2) d /\
    scores Q K1 = Ok S1 /\
    scores Q K2 = Ok S2 /\
    scores Q K = Ok S /\
    has_shape S n_q (n1 + n2) /\
    forall i, (i < n_q)%nat -> row S i = row S1 i ++ row S2 i.
Proof.
  intros HQ HK1 HK2.
  destruct (concatenate_shape K1 K2 n1 n2 d HK1 HK2) as [EK HK].
  set (K := mkArray (n1 + n2) d (rows K1 ++ rows K2)) in *.
  destruct HQ as (HQn & HQd & HQ).
  destruct HK1 as (H1n & H1d & H1), HK2 as (H2n & H2d & H2).
  destruct (scores_Ok Q K1) as [S1 E1]; [lia|].
  destruct (scores_Ok Q K2) as [S2 E2]; [lia|].
  destruct (scores_Ok Q K) as [S E]; [simpl; lia|].
  exists K, S1, S2, S. repeat (split; [assumption|]).
  split.
  { destruct (matmul_shape _ _ _ E HQ) as (Ha & Hb & Hc).
    repeat split; try apply Hc; simpl in *; lia. }
  intros i Hi.
  assert (Hi' : (i < length (rows Q))%nat) by (destruct HQ; lia).
  unfold scores in *.
  rewrite (matmul_row _ _ _ i E), (matmul_row _ _ _ i E1),
    (matmul_row _ _ _ i E2) by assumption.
  simpl. rewrite H1n, H2n, seq_app, map_app. simpl. f_equal.
  - apply map_ext_in. intros j Hj. apply in_seq in Hj.
    apply sum_map_ext_in. intros k Hk. apply in_seq in Hk.
    rewrite !transpose_get by (simpl; lia).
    unfold get, row, K. simpl.
    rewrite app_nth1 by (destruct H1; lia). reflexivity.
  - rewrite (seq_from n1 n2), map_map.
    apply map_ext_in. intros j Hj. apply in_seq in Hj.
    apply sum_map_ext_in. intros k Hk. apply in_seq in Hk.
    rewrite !transpose_get by (simpl; lia).
    unfold get, row, K. simpl.
    rewrite app_nth2 by (destruct H1; lia).
    replace (n1 + j - length (rows K1))%nat with j by (destruct H1; lia).
    reflexivity.
Qed.

Lemma scores_of_stacked_keys_witness :
  exists K S1 S2 S,
    concatenate (row_vector k_1) (row_vector k_2) = Ok K /\
    has_shape K (1 + 1) 6 /\
    scores (array [q_1]) (row_vector k_1) = Ok S1 /\
    scores (array [q_1]) (row_vector k_2) = Ok S2 /\
    scores (array [q_1]) K = Ok S /\
    has_shape S 1 (1 + 1) /\
    forall i, (i < 1)%nat -> row S i = row S1 i ++ row S2 i.
Proof.
  apply (scores_of_stacked_keys (array [q_1]) (row_vector k_1)
           (row_vector k_2) 1 1 1 6);
    repeat split; simpl; repeat constructor.
Defined.

(** ** Max-normalisation, in general *)

Lemma fold_left_Rmax_ge (l : list R) (a : R) : a <= fold_left Rmax l a.
Proof.
  revert a. induction l as [|x l IH]; intros a; simpl; [lra|].
  eapply Rle_trans; [apply (Rmax_l a x) | apply IH].
Qed.

Lemma fold_left_Rmax_ub (l : list R) (a x : R) :
  In x l -> x <= fold_left Rmax l a.
Proof.
  revert a. induction l as [|y l IH]; intros a; simpl; [contradiction|].
  intros [->|H]; [|now apply IH].
  eapply Rle_trans; [apply (Rmax_r a x) | apply fold_left_Rmax_ge].
Qed.

Lemma fold_left_Rmax_in (l : list R) (a : R) :
  fold_left Rmax l a = a \/ In (fold_left Rmax l a) l.
Proof.
  revert a. induction l as [|y l IH]; intros a; simpl; [now left|].
  destruct (IH (Rmax a y)) as [E|H]; [|now right; right].
  rewrite E. unfold Rmax. destruct (Rle_dec a y); [right; now left | now left].
Qed.

Lemma vmax_ub (r : list R) (x : R) : In x r -> x <= vmax r.
Proof.
  destruct r as [|y r]; simpl; [contradiction|].
  intros [->|H]; [apply fold_left_Rmax_ge | now apply fold_left_Rmax_ub].
Qed.

Lemma vmax_in (r : list R) : r <> [] -> In (vmax r) r.
Proof.
  destruct r as [|y r]; [congruence | intros _]. simpl.
  destruct (fold_left_Rmax_in r y) as [E|H]; [left; now rewrite E | now right].
Qed.

Lemma combine_map_r (A B : Type) (f : A -> B) (l : list A) :
  combine l (map f l) = map (fun x => (x, f x)) l.
Proof.
  induction l as [|x l IH]; simpl; [reflexivity | now rewrite IH].
Qed.

(** Max-normalisation row by row. *)
Lemma max_normalize_rows (A : ndarray) :
  wf A -> ncols A <> 0%nat ->
  max_normalize A
  = Ok (mkArray (nrows A) (ncols A)
          (map (fun r => map (fun x => x / vmax r) r) (rows A))).
Proof.
  intros [Hn _] Hc. unfold max_normalize, max_axis1.
  rewrite (proj2 (Nat.eqb_neq _ _) Hc). simpl. unfold div_rows.
  rewrite length_map, Hn, Nat.eqb_refl, combine_map_r, map_map.
  reflexivity.
Qed.

Lemma max_normalize_row (A M : ndarray) (i : nat) :
  wf A -> max_normalize A = Ok M -> (i < nrows A)%nat ->
  row M i = map (fun x => x / vmax (row A i)) (row A i).
Proof.
  intros HA HM Hi.
  destruct (Nat.eq_dec (ncols A) 0) as [Hc|Hc].
  - unfold max_normalize, max_axis1 in HM.
    rewrite (proj2 (Nat.eqb_eq _ _) Hc) in HM. discriminate.
  - rewrite max_normalize_rows in HM by assumption.
    injection HM as <-. unfold row at 1. simpl.
    rewrite (nth_map_in _ _ _ _ [] []) by (destruct HA; lia).
    reflexivity.
Qed.

Lemma max_normalize_raises_iff_aux (A : ndarray) :
  wf A ->
  (ncols A = 0%nat -> max_normalize A = Raise EmptyReduction) /\
  (ncols A <> 0%nat ->
   exists M, max_normalize A = Ok M /\ has_shape M (nrows A) (ncols A)).
Proof.
  intros HA. split.
  - intros Hc. unfold max_normalize, max_axis1.
    now rewrite (proj2 (Nat.eqb_eq _ _) Hc).
  - intros Hc. rewrite max_normalize_rows by assumption.
    eexists. split; [reflexivity|]. destruct HA as [Hn Hr].
    repeat split; simpl.
    + now rewrite length_map.
    + rewrite Forall_forall in *. intros r Hin.
      apply in_map_iff in Hin as [r' [<- Hin]].
      rewrite length_map. auto.
Qed.

(** X6: on a well-formed array, max-normalisation raises exactly when the
    array has no column (the maximum over an empty axis does not exist), and
    then with the reduction's exception; otherwise it returns an array of
    the same shape. *)
Theorem max_normalize_raises_iff (A : ndarray) :
  wf A ->
  (raises (max_normalize A) <-> ncols A = 0%nat) /\
  (max_normalize A = Raise EmptyReduction <-> ncols A = 0%nat) /\
  (ncols A <> 0%nat ->
   exists M, max_normalize A = Ok M /\ has_shape M (nrows A) (ncols A)).
Proof.
  intros HA. destruct (max_normalize_raises_iff_aux A HA) as [H0 H1].
  split; [|split; [|exact H1]].
  - split.
    + intros [e He]. destruct (Nat.eq_dec (ncols A) 0) as [Hc|Hc]; [exact Hc|].
      destruct (H1 Hc) as (M & EM & _). congruence.
    + intros Hc. eexists. apply H0, Hc.
  - split; [|exact H0].
    intros He. destruct (Nat.eq_dec (ncols A) 0) as [Hc|Hc]; [exact Hc|].
    destruct (H1 Hc) as (M & EM & _). congruence.
Qed.

Lemma max_normalize_raises_iff_witness :
  (raises (max_normalize (array [[1; 2]]))
   <-> ncols (array [[1; 2]]) = 0%nat) /\
  (max_normalize (array [[1; 2]]) = Raise EmptyReduction
   <-> ncols (array [[1; 2]]) = 0%nat) /\
  (ncols (array [[1; 2]]) <> 0%nat ->
   exists M, max_normalize (array [[1; 2]]) = Ok M /\
             has_shape M (nrows (array [[1; 2]])) (ncols (array [[1; 2]]))).
Proof.
  apply (max_normalize_raises_iff (array [[1; 2]])).
  repeat split; simpl; repeat constructor.
Defined.

(** X7: after max-normalisation, a row whose maximum is positive has no
    entry above 1 and has the entry 1 (where its maximum was). *)
Theorem max_normalize_row_max_is_one (A M : ndarray) (i : nat) :
  wf A -> max_normalize A = Ok M -> (i < nrows A)%nat ->
  0 < vmax (row A i) ->
  Forall (fun x => x <= 1) (row M i) /\ In 1 (row M i) /\ vmax (row M i) = 1.
Proof.
  intros HA HM Hi Hpos.
  rewrite (max_normalize_row A M i HA HM Hi).
  set (r := row A i) in *. set (m := vmax r) in *.
  assert (Hne : r <> []).
  { intros E. unfold m in Hpos. rewrite E in Hpos. simpl in Hpos. lra. }
  assert (Hle : Forall (fun x => x <= 1) (map (fun x => x / m) r)).
  { rewrite Forall_forall. intros y Hy.
    apply in_map_iff in Hy as [x [<- Hx]].
    apply vmax_ub in Hx. fold m in Hx.
    apply (Rmult_le_reg_r m); [exact Hpos|].
    unfold Rdiv. rewrite Rmult_assoc, Rinv_l by lra. lra. }
  assert (Hin : In 1 (map (fun x => x / m) r)).
  { apply in_map_iff. exists m. split; [field; lra | now apply vmax_in]. }
  repeat split; try assumption.
  apply Rle_antisym.
  - rewrite Forall_forall in Hle. apply Hle, vmax_in.
    intros E. rewrite E in Hin. contradiction.
  - now apply vmax_ub.
Qed.

Lemma max_normalize_row_max_is_one_witness :
  exists M,
    max_normalize (array [[1; 2]]) = Ok M /\
    Forall (fun x => x <= 1) (row M 0) /\ In 1 (row M 0) /\
    vmax (row M 0) = 1.
Proof.
  eexists. split; [reflexivity|].
  apply (max_normalize_row_max_is_one (array [[1; 2]]) _ 0%nat).
  - repeat split; simpl; repeat constructor.
  - reflexivity.
  - simpl. lia.
  - simpl. unfold Rmax. destruct (Rle_dec 1 2); lra.
Defined.

Lemma sum_app (l1 l2 : list R) : sum (l1 ++ l2) = sum l1 + sum l2.
Proof.
  induction l1 as [|x l1 IH]; simpl; [ring | rewrite IH; ring].
Qed.

Lemma sum_pos (l : list R) :
  Forall (fun x => 0 < x) l -> l <> [] -> 0 < sum l.
Proof.
  induction 1 as [|x l Hx Hl IH]; [congruence | intros _]. simpl.
  destruct l as [|y l]; [simpl; lra|].
  assert (0 < sum (y :: l)) by (apply IH; congruence). lra.
Qed.

Lemma sum_gt_member (l : list R) (m : R) :
  Forall (fun x => 0 < x) l -> In m l -> (2 <= length l)%nat -> m < sum l.
Proof.
  intros Hpos Hin Hlen.
  apply in_split in Hin as (l1 & l2 & ->).
  rewrite sum_app. simpl.
  apply Forall_app in Hpos as [H1 H2]. inversion H2 as [|? ? _ H2']; subst.
  rewrite length_app in Hlen. simpl in Hlen.
  destruct l1 as [|a l1].
  - destruct l2 as [|b l2]; [simpl in Hlen; lia|].
    assert (0 < sum (b :: l2)) by (apply sum_pos; [assumption | congruence]).
    simpl in *. lra.
  - assert (0 < sum (a :: l1)) by (apply sum_pos; [assumption | congruence]).
    assert (0 <= sum l2).
    { destruct l2 as [|b l2]; [simpl; lra|].
      apply Rlt_le, sum_pos; [assumption | congruence]. }
    lra.
Qed.

(** X8: max-normalisation never yields a probability distribution on a row
    of two or more positive scores: such a row sums to more than 1. *)
Theorem max_normalize_row_sum_above_one (A M : ndarray) (i : nat) :
  wf A -> max_normalize A = Ok M -> (i < nrows A)%nat ->
  (2 <= ncols A)%nat -> Forall (fun x => 0 < x) (row A i) ->
  1 < sum (row M i).
Proof.
  intros HA HM Hi Hc Hpos.
  rewrite (max_normalize_row A M i HA HM Hi), sum_map_div.
  pose proof (wf_row_length A i HA Hi) as Hlen.
  set (r := row A i) in *.
  assert (Hne : r <> []) by (intros E; rewrite E in Hlen; simpl in Hlen; lia).
  pose proof (vmax_in r Hne) as Hin.
  assert (Hm : 0 < vmax r) by (rewrite Forall_forall in Hpos; now apply Hpos).
  assert (Hgt : vmax r < sum r) by (apply sum_gt_member; auto; lia).
  apply (Rmult_lt_reg_r (vmax r)); [exact Hm|].
  unfold Rdiv. rewrite Rmult_assoc, Rinv_l by lra. lra.
Qed.

Lemma max_normalize_row_sum_above_one_witness :
  exists M,
    max_normalize (array [[1; 2]]) = Ok M /\ 1 < sum (row M 0).
Proof.
  eexists. split; [reflexivity|].
  apply (max_normalize_row_sum_above_one (array [[1; 2]]) _ 0%nat).
  - repeat split; simpl; repeat constructor.
  - reflexivity.
  - simpl. lia.
  - simpl. lia.
  - simpl. repeat constructor; lra.
Defined.

Lemma vmax_div (r : list R) (c : R) :
  0 < c -> vmax (map (fun x => x / c) r) = vmax r / c.
Proof.
  intros Hc. destruct r as [|a r]; simpl; [unfold Rdiv; ring|].
  revert a. induction r as [|y r IH]; intros a; simpl; [reflexivity|].
  rewrite <- IH. f_equal.
  assert (Hi : 0 < / c) by now apply Rinv_0_lt_compat.
  unfold Rmax, Rdiv.
  destruct (Rle_dec a y), (Rle_dec (a * / c) (y * / c)); try reflexivity;
    exfalso; nra.
Qed.

(** X9: the scaling cell has no effect on the max-normalised weights:
    dividing the scores by a positive constant before max-normalisation
    gives the same result as max-normalising the scores themselves, when no
    row maximum is zero. *)
Theorem max_normalize_undoes_scaling (A : ndarray) (c : R) :
  wf A -> 0 < c -> Forall (fun r => vmax r <> 0) (rows A) ->
  max_normalize (div_scalar A c) = max_normalize A.
Proof.
  intros HA Hc Hm.
  destruct (div_scalar_shape A c HA) as (_ & _ & HA').
  destruct (Nat.eq_dec (ncols A) 0) as [E|E].
  - unfold max_normalize, max_axis1. simpl.
    now rewrite (proj2 (Nat.eqb_eq _ _) E).
  - rewrite !max_normalize_rows by assumption. simpl.
    do 2 f_equal. rewrite map_map. apply map_ext_in. intros r Hr.
    rewrite Forall_forall in Hm. specialize (Hm r Hr).
    rewrite vmax_div, map_map by assumption.
    apply map_ext. intros x. field. lra.
Qed.

Lemma max_normalize_undoes_scaling_witness :
  max_normalize (div_scalar (array [[1; 2]]) 2)
  = max_normalize (array [[1; 2]]).
Proof.
  apply (max_normalize_undoes_scaling (array [[1; 2]]) 2).
  - repeat split; simpl; repeat constructor.
  - lra.
  - simpl. constructor; [|constructor].
    simpl. unfold Rmax. destruct (Rle_dec 1 2); lra.
Defined.

Lemma matmul_returns_iff (A B : ndarray) :
  returns (matmul A B) <-> ncols A = nrows B.
Proof.
  split.
  - intros [C HC]. now apply matmul_inv in HC as [E _].
  - intros E. rewrite matmul_Ok by exact E. eexists. reflexivity.
Qed.

(** X10: the exploratory cells, from [A = Q @ K.T] to [output = A @ V],
    return exactly when Q and K have the same number of columns, there is at
    least one key, and K and V have the same number of rows; the output then
    has shape (n_q, d_v).  With matching columns and no key at all, it is
    the max-normalisation that raises, on the empty rows of scores. *)
Theorem explore_output_returns_iff (Q K V : ndarray) :
  wf Q ->
  (returns (explore_output Q K V)
   <-> (ncols Q = ncols K /\ nrows K <> 0 /\ nrows K = nrows V)%nat) /\
  (forall O, explore_output Q K V = Ok O ->
             has_shape O (nrows Q) (ncols V)) /\
  (ncols Q = ncols K -> nrows K = 0%nat ->
   explore_output Q K V = Raise EmptyReduction).
Proof.
  intros HQ.
  assert (Hrun : ncols Q = ncols K ->
            exists S, scores Q K = Ok S /\ has_shape S (nrows Q) (nrows K) /\
              explore_output Q K V
              = (A <- max_normalize (div_scalar S (sqrt 6)) ;; matmul A V)).
  { intros Hd. destruct (scores_Ok Q K Hd) as [S HS]. exists S.
    split; [exact HS|]. split.
    - unfold scores in HS. apply (matmul_shape _ _ _ HS HQ).
    - unfold explore_output, explore_weights. now rewrite HS. }
  assert (Hnorm : forall S, has_shape S (nrows Q) (nrows K) ->
            nrows K <> 0%nat ->
            exists M, max_normalize (div_scalar S (sqrt 6)) = Ok M /\
                      has_shape M (nrows Q) (nrows K)).
  { intros S (HSn & HSc & HS) Hk.
    destruct (div_scalar_shape S (sqrt 6) HS) as (H1 & H2 & H3).
    destruct (max_normalize_raises_iff_aux _ H3) as [_ Hret].
    destruct Hret as (M & EM & HM); [lia|].
    exists M. split; [exact EM|].
    destruct HM as (Ha & Hb & Hc). repeat split; try apply Hc; lia. }
  split; [split|split].
  - intros [O HO].
    destruct (Nat.eq_dec (ncols Q) (ncols K)) as [Hd|Hd].
    2:{ unfold explore_output, explore_weights, scores in HO.
        rewrite matmul_Raise in HO by exact Hd. discriminate. }
    destruct (Hrun Hd) as (S & HS & HSs & E). rewrite E in HO.
    destruct (Nat.eq_dec (nrows K) 0) as [Hk|Hk].
    { unfold max_normalize, max_axis1 in HO. simpl in HO.
      destruct HSs as (_ & HSc & _).
      rewrite (proj2 (Nat.eqb_eq _ _) (eq_trans HSc Hk)) in HO.
      discriminate. }
    destruct (Hnorm S HSs Hk) as (M & EM & HMn & HMc & _).
    rewrite EM in HO. simpl in HO.
    apply matmul_inv in HO as [Hv _]. repeat split; lia.
  - intros (Hd & Hk & Hv).
    destruct (Hrun Hd) as (S & HS & HSs & E). rewrite E.
    destruct (Hnorm S HSs Hk) as (M & EM & HMn & HMc & _).
    rewrite EM. simpl. apply matmul_returns_iff. lia.
  - intros O HO.
    destruct (Nat.eq_dec (ncols Q) (ncols K)) as [Hd|Hd].
    2:{ unfold explore_output, explore_weights, scores in HO.
        rewrite matmul_Raise in HO by exact Hd. discriminate. }
    destruct (Hrun Hd) as (S & HS & HSs & E). rewrite E in HO.
    destruct (Nat.eq_dec (nrows K) 0) as [Hk|Hk].
    { unfold max_normalize, max_axis1 in HO. simpl in HO.
      destruct HSs as (_ & HSc & _).
      rewrite (proj2 (Nat.eqb_eq _ _) (eq_trans HSc Hk)) in HO.
      discriminate. }
    destruct (Hnorm S HSs Hk) as (M & EM & HMn & HMc & HMw).
    rewrite EM in HO. simpl in HO.
    destruct (matmul_shape _ _ _ HO HMw) as (Ha & Hb & Hc).
    repeat split; try apply Hc; lia.
  - intros Hd Hk.
    destruct (Hrun Hd) as (S & HS & (_ & HSc & _) & E). rewrite E.
    unfold max_normalize, max_axis1. simpl.
    now rewrite (proj2 (Nat.eqb_eq _ _) (eq_trans HSc Hk)).
Qed.

Lemma explore_output_returns_iff_witness :
  (returns (explore_output (array [q_1]) (array [k_1; k_2])
              (array [v_1; v_2]))
   <-> (ncols (array [q_1]) = ncols (array [k_1; k_2]) /\
        nrows (array [k_1; k_2]) <> 0 /\
        nrows (array [k_1; k_2]) = nrows (array [v_1; v_2]))%nat) /\
  (forall O,
     explore_output (array [q_1]) (array [k_1; k_2]) (array [v_1; v_2])
     = Ok O ->
     has_shape O (nrows (array [q_1])) (ncols (array [v_1; v_2]))) /\
  (ncols (array [q_1]) = ncols (array [k_1; k_2]) ->
   nrows (array [k_1; k_2]) = 0%nat ->
   explore_output (array [q_1]) (array [k_1; k_2]) (array [v_1; v_2])
   = Raise EmptyReduction).
Proof.
  apply (explore_output_returns_iff (array [q_1]) (array [k_1; k_2])
           (array [v_1; v_2])).
  repeat split; simpl; repeat constructor.
Defined.

(** ** Ill-shaped operands *)




